(** * HTS Settings characteristic: the settings record and its byte view

    Shallow embedding of [SwiftyZorb/Internal/Headers/hts_settings.h].

    The header declares two types and no function:

    - [struct hts_settings], three [uint8_t] members;
    - [union hts_settings_data], whose members [bytes] (an array of
      [sizeof(hts_settings)] bytes, "for incoming BLE transmissions") and
      [data] (the structure) share one storage.

    A union object is modelled by its object representation, a list of
    bytes, and each member access by loads and stores at the member's
    offset.  An access outside the object has no defined behaviour in C;
    here it yields [None].  The two conversions the union exists for are
    then: store through [data] and read [bytes] ([encode]); store through
    [bytes] and read [data] ([decode]). *)

From Stdlib Require Import Strings.Byte.
From stdpp Require Import base decidable option list numbers.

(** ** <stdint.h> *)

Definition uint8_t : Type := byte.
Definition sizeof_uint8_t : nat := 1.
Definition alignof_uint8_t : nat := 1.

(** ** struct hts_settings *)

Record hts_settings : Type := mk_hts_settings {
  wrist_orientation : uint8_t;       (* 0 left, 1 right *)
  pair_button_orientation : uint8_t; (* 0 left, 1 right *)
  intensity_level : uint8_t          (* 0 low, 1 medium, 2 high *)
}.

(** The members, named, in the order of their declaration. *)
Inductive member : Type :=
  | m_wrist_orientation
  | m_pair_button_orientation
  | m_intensity_level.

#[global] Instance member_eq_dec : EqDecision member.
Proof. solve_decision. Defined.

Definition hts_settings_members : list member :=
  [m_wrist_orientation; m_pair_button_orientation; m_intensity_level].

(** Every member is a [uint8_t]. *)
Definition sizeof_member (m : member) : nat :=
  match m with
  | m_wrist_orientation | m_pair_button_orientation | m_intensity_level =>
      sizeof_uint8_t
  end.

Definition alignof_member (m : member) : nat :=
  match m with
  | m_wrist_orientation | m_pair_button_orientation | m_intensity_level =>
      alignof_uint8_t
  end.

(** Structure layout, as the ABIs the library is built for (x86-64 and
    ARM64) lay structures out: each member goes to the first offset, at or
    after the end of the previous one, that is a multiple of its alignment;
    the size of the structure is the end of the last member rounded up to
    the alignment of the structure. *)
Definition align_up (pos a : nat) : nat := (pos + a - 1) `div` a * a.

Fixpoint offset_in (ms : list member) (pos : nat) (m : member) : nat :=
  match ms with
  | [] => pos
  | m' :: ms' =>
      let ofs := align_up pos (alignof_member m') in
      if decide (m' = m) then ofs
      else offset_in ms' (ofs + sizeof_member m') m
  end.

Fixpoint end_of (ms : list member) (pos : nat) : nat :=
  match ms with
  | [] => pos
  | m' :: ms' => end_of ms' (align_up pos (alignof_member m') + sizeof_member m')
  end.

Definition alignof_struct (ms : list member) : nat :=
  foldr (fun m a => Nat.max (alignof_member m) a) 1 ms.

Definition offsetof (m : member) : nat := offset_in hts_settings_members 0 m.

Definition alignof_hts_settings : nat := alignof_struct hts_settings_members.

Definition sizeof_hts_settings : nat :=
  align_up (end_of hts_settings_members 0) alignof_hts_settings.

(** The values the comments of the header give to each member. *)
Definition orientation_ok (b : uint8_t) : bool :=
  bool_decide (Byte.to_nat b ≤ 1).

Definition intensity_ok (b : uint8_t) : bool :=
  bool_decide (Byte.to_nat b ≤ 2).

Definition hts_settings_valid (r : hts_settings) : bool :=
  orientation_ok (wrist_orientation r)
  && orientation_ok (pair_button_orientation r)
  && intensity_ok (intensity_level r).

(** ** union hts_settings_data *)

(** [uint8_t bytes[sizeof(hts_settings)]] *)
Definition bytes_len : nat := sizeof_hts_settings.
Definition sizeof_bytes : nat := bytes_len * sizeof_uint8_t.

(** A union is as large as its largest member (both have alignment 1). *)
Definition sizeof_hts_settings_data : nat :=
  align_up (Nat.max sizeof_bytes sizeof_hts_settings)
           (Nat.max alignof_uint8_t alignof_hts_settings).

(** The object representation of a union object. *)
Definition hts_settings_data : Type := list uint8_t.

Definition hts_settings_data_wf (u : hts_settings_data) : Prop :=
  length u = sizeof_hts_settings_data.

(** [hts_settings_data u = {0};] *)
Definition hts_settings_data_zero : hts_settings_data :=
  replicate sizeof_hts_settings_data x00.

(** One byte of an object representation, read and written. *)
Definition load (u : list uint8_t) (ofs : nat) : option uint8_t :=
  u !! ofs.

Definition store (u : list uint8_t) (ofs : nat) (b : uint8_t)
  : option (list uint8_t) :=
  if decide (ofs < length u) then Some (<[ofs := b]> u) else None.

(** [u.data], read: every member of the structure, at its offset (both
    members of the union start at offset 0). *)
Definition get_data (u : hts_settings_data) : option hts_settings :=
  w ← load u (offsetof m_wrist_orientation);
  p ← load u (offsetof m_pair_button_orientation);
  i ← load u (offsetof m_intensity_level);
  Some (mk_hts_settings w p i).

(** [u.data = r] *)
Definition set_data (r : hts_settings) (u : hts_settings_data)
  : option hts_settings_data :=
  u1 ← store u (offsetof m_wrist_orientation) (wrist_orientation r);
  u2 ← store u1 (offsetof m_pair_button_orientation) (pair_button_orientation r);
  store u2 (offsetof m_intensity_level) (intensity_level r).

(** [u.bytes[ofs], ..., u.bytes[ofs + n - 1]], read. *)
Fixpoint load_bytes (u : list uint8_t) (ofs n : nat)
  : option (list uint8_t) :=
  match n with
  | 0 => Some []
  | S n' =>
      b ← load u (ofs * sizeof_uint8_t);
      bs ← load_bytes u (S ofs) n';
      Some (b :: bs)
  end.

(** [u.bytes[ofs] = b0; u.bytes[ofs + 1] = b1; ...] *)
Fixpoint store_bytes (u : list uint8_t) (ofs : nat) (bs : list uint8_t)
  : option (list uint8_t) :=
  match bs with
  | [] => Some u
  | b :: bs' =>
      u' ← store u (ofs * sizeof_uint8_t) b;
      store_bytes u' (S ofs) bs'
  end.

(** [u.bytes], the whole array, read. *)
Definition get_bytes (u : hts_settings_data) : option (list uint8_t) :=
  load_bytes u 0 bytes_len.

(** [u.bytes] assigned from a buffer.  The member has an array type of
    [sizeof(hts_settings)] elements: a buffer of another length is not a
    value of that type. *)
Definition set_bytes (bs : list uint8_t) (u : hts_settings_data)
  : option hts_settings_data :=
  if decide (length bs = bytes_len) then store_bytes u 0 bs else None.

(** ** The two conversions

    The record goes to its bytes through a union object: [u.data = r], then
    [u.bytes] is what is sent.  Incoming bytes go the other way. *)
Definition encode_with (u : hts_settings_data) (r : hts_settings)
  : option (list uint8_t) :=
  u' ← set_data r u; get_bytes u'.

Definition decode_with (u : hts_settings_data) (bs : list uint8_t)
  : option hts_settings :=
  u' ← set_bytes bs u; get_data u'.

Definition encode (r : hts_settings) : option (list uint8_t) :=
  encode_with hts_settings_data_zero r.

Definition decode (bs : list uint8_t) : option hts_settings :=
  decode_with hts_settings_data_zero bs.

(** ** Decoding with an error report *)

(** Modelled from the spec: the header has no error code; the spec names the
    one error of decode, "input buffer for decode is not exactly 3 bytes". *)
Inductive decode_error : Type := LengthMismatch.

(** Modelled from the spec: the header declares no decoding routine and no
    error code.  The spec's decode, given a receiving union object, "fails
    with a LengthMismatch error if the input is not exactly 3 bytes",
    "immediately, nothing partially applied"; otherwise the bytes are stored
    through [bytes] and the record is read through [data]. *)
Definition decode_into (u : hts_settings_data) (bs : list uint8_t)
  : (decode_error + hts_settings) * hts_settings_data :=
  match set_bytes bs u with
  | Some u' =>
      match get_data u' with
      | Some r => (inr r, u')
      | None => (inl LengthMismatch, u)
      end
  | None => (inl LengthMismatch, u)
  end.

(** Modelled from the spec: decode as an operation from bytes to a record or
    an error, the receiving object being a fresh one. *)
Definition decode_checked (bs : list uint8_t) : decode_error + hts_settings :=
  fst (decode_into hts_settings_data_zero bs).

(** ** Decoding in place, element by element

    Here a store that fails does not hide the stores made before it: the
    object comes back as written so far, with [false]. *)

(** [u.bytes[ofs] = b0; u.bytes[ofs + 1] = b1; ...], stopping at the first
    element outside the object. *)
Fixpoint copy_bytes (u : list uint8_t) (ofs : nat) (bs : list uint8_t)
  : bool * list uint8_t :=
  match bs with
  | [] => (true, u)
  | b :: bs' =>
      match store u (ofs * sizeof_uint8_t) b with
      | Some u' => copy_bytes u' (S ofs) bs'
      | None => (false, u)
      end
  end.

(** Modelled from the spec: the header has no decode routine.  The spec's
    decode of a buffer into a receiving union object checks the length
    first ("fails with a LengthMismatch error if the input is not exactly 3
    bytes", "immediately, nothing partially applied"), then copies the
    bytes into [bytes] and reads the record through [data].  Whatever has
    been copied when a later step fails stays in the object. *)
Definition decode_in_place (u : hts_settings_data) (bs : list uint8_t)
  : (decode_error + hts_settings) * hts_settings_data :=
  if decide (length bs = bytes_len) then
    match copy_bytes u 0 bs with
    | (true, u') =>
        match get_data u' with
        | Some r => (inr r, u')
        | None => (inl LengthMismatch, u')
        end
    | (false, u') => (inl LengthMismatch, u')
    end
  else (inl LengthMismatch, u).

(** ** Single members and single bytes

    The accesses the two types allow besides whole-object assignment. *)

(** [r.m], and [r] with [r.m = b]. *)
Definition member_value (r : hts_settings) (m : member) : uint8_t :=
  match m with
  | m_wrist_orientation => wrist_orientation r
  | m_pair_button_orientation => pair_button_orientation r
  | m_intensity_level => intensity_level r
  end.

Definition with_member (r : hts_settings) (m : member) (b : uint8_t)
  : hts_settings :=
  match m with
  | m_wrist_orientation =>
      mk_hts_settings b (pair_button_orientation r) (intensity_level r)
  | m_pair_button_orientation =>
      mk_hts_settings (wrist_orientation r) b (intensity_level r)
  | m_intensity_level =>
      mk_hts_settings (wrist_orientation r) (pair_button_orientation r) b
  end.

(** [u.data.m], read, and [u.data.m = b]. *)
Definition get_member (m : member) (u : hts_settings_data) : option uint8_t :=
  load u (offsetof m).

Definition set_member (m : member) (b : uint8_t) (u : hts_settings_data)
  : option hts_settings_data :=
  store u (offsetof m) b.

(** [u.bytes[i]], read, and [u.bytes[i] = b]; the array has [bytes_len]
    elements. *)
Definition get_byte (i : nat) (u : hts_settings_data) : option uint8_t :=
  if decide (i < bytes_len) then load u (i * sizeof_uint8_t) else None.

Definition set_byte (i : nat) (b : uint8_t) (u : hts_settings_data)
  : option hts_settings_data :=
  if decide (i < bytes_len) then store u (i * sizeof_uint8_t) b else None.

(** * Layout of the structure *)

Lemma offsetof_wrist_orientation : offsetof m_wrist_orientation = 0.
Proof. reflexivity. Qed.

Lemma offsetof_pair_button_orientation : offsetof m_pair_button_orientation = 1.
Proof. reflexivity. Qed.

Lemma offsetof_intensity_level : offsetof m_intensity_level = 2.
Proof. reflexivity. Qed.

Lemma sizeof_hts_settings_eq : sizeof_hts_settings = 3.
Proof. reflexivity. Qed.

Lemma bytes_len_eq : bytes_len = 3.
Proof. reflexivity. Qed.

Lemma sizeof_hts_settings_data_eq : sizeof_hts_settings_data = 3.
Proof. reflexivity. Qed.

(** Every member lies inside the structure, and no two members overlap:
    the structure has no padding to leave unwritten. *)
Lemma member_in_bounds (m : member) :
  offsetof m + sizeof_member m ≤ sizeof_hts_settings.
Proof. destruct m; vm_compute; lia. Qed.

Lemma member_offsets_inj (m1 m2 : member) :
  offsetof m1 = offsetof m2 → m1 = m2.
Proof. destruct m1, m2; vm_compute; congruence. Qed.

(** Closes [offsetof m1 ≠ offsetof m2] for two different members. *)
Ltac distinct_members :=
  let E := fresh in intros E; apply member_offsets_inj in E; discriminate E.

(** * Loads and stores *)

Section memory.
Implicit Types (u : list uint8_t) (b : uint8_t) (bs : list uint8_t).

Lemma store_Some u ofs b :
  ofs < length u → store u ofs b = Some (<[ofs := b]> u).
Proof. intros Hlt. unfold store. by rewrite decide_True. Qed.

Lemma store_None u ofs b : length u ≤ ofs → store u ofs b = None.
Proof. intros Hge. unfold store. rewrite decide_False; [done | lia]. Qed.

Lemma store_length u ofs b u' :
  store u ofs b = Some u' → length u' = length u.
Proof.
  unfold store. case_decide; [| done].
  intros [= <-]. apply length_insert.
Qed.

Lemma load_store_eq u ofs b u' :
  store u ofs b = Some u' → load u' ofs = Some b.
Proof.
  unfold store, load. case_decide; [| done].
  intros [= <-]. by apply list_lookup_insert_eq.
Qed.

Lemma load_store_ne u ofs ofs' b u' :
  store u ofs b = Some u' → ofs ≠ ofs' → load u' ofs' = load u ofs'.
Proof.
  unfold store, load. case_decide; [| done].
  intros [= <-] Hne. by apply list_lookup_insert_ne.
Qed.

Lemma load_bytes_Some u ofs n :
  ofs + n ≤ length u → load_bytes u ofs n = Some (take n (drop ofs u)).
Proof.
  revert ofs. induction n as [| n IH]; intros ofs Hle; simpl.
  - by rewrite take_0.
  - unfold load, sizeof_uint8_t. rewrite Nat.mul_1_r.
    destruct (lookup_lt_is_Some_2 u ofs) as [b Hb]; [lia |].
    rewrite Hb. simpl. rewrite IH by lia. simpl.
    by rewrite (drop_S _ _ _ Hb).
Qed.

Lemma store_bytes_Some u ofs bs :
  ofs + length bs ≤ length u →
  store_bytes u ofs bs = Some (take ofs u ++ bs ++ drop (ofs + length bs) u).
Proof.
  revert u ofs. induction bs as [| b bs IH]; intros u ofs Hle; simpl in *.
  - by rewrite Nat.add_0_r, take_drop.
  - unfold sizeof_uint8_t. rewrite Nat.mul_1_r.
    rewrite store_Some by lia. simpl.
    rewrite IH by (rewrite length_insert; lia).
    f_equal.
    rewrite (take_S_r _ _ b) by (apply list_lookup_insert_eq; lia).
    rewrite take_insert_ge by lia.
    rewrite drop_insert_lt by lia.
    rewrite <- app_assoc. simpl. by rewrite Nat.add_succ_r.
Qed.
End memory.

(** * The members of a well-formed union object *)

Section union.
Implicit Types (u : hts_settings_data) (r : hts_settings)
               (bs : list uint8_t).

Lemma hts_settings_data_zero_wf : hts_settings_data_wf hts_settings_data_zero.
Proof. apply length_replicate. Qed.

Lemma hts_settings_data_wf_inv u :
  hts_settings_data_wf u → ∃ a b c, u = [a; b; c].
Proof.
  unfold hts_settings_data_wf. rewrite sizeof_hts_settings_data_eq.
  destruct u as [| a [| b [| c [| d u]]]]; simpl; try discriminate.
  intros _. by exists a, b, c.
Qed.

(** [bytes] covers the whole object. *)
Lemma get_bytes_wf u : hts_settings_data_wf u → get_bytes u = Some u.
Proof.
  intros Hwf. unfold get_bytes. red in Hwf.
  rewrite load_bytes_Some
    by (rewrite Hwf, bytes_len_eq, sizeof_hts_settings_data_eq; lia).
  rewrite drop_0, take_ge; [done |].
  rewrite Hwf, bytes_len_eq, sizeof_hts_settings_data_eq. lia.
Qed.

Lemma set_bytes_wf u bs :
  hts_settings_data_wf u → length bs = bytes_len → set_bytes bs u = Some bs.
Proof.
  intros Hwf Hlen. unfold set_bytes. red in Hwf.
  rewrite decide_True by done.
  rewrite store_bytes_Some
    by (rewrite Hwf, Hlen, bytes_len_eq, sizeof_hts_settings_data_eq; lia).
  rewrite take_0, drop_ge;
    [by rewrite app_nil_r |].
  rewrite Hwf, Hlen, bytes_len_eq, sizeof_hts_settings_data_eq. simpl. lia.
Qed.

Lemma set_bytes_length_ne u bs : length bs ≠ bytes_len → set_bytes bs u = None.
Proof. intros Hne. unfold set_bytes. by rewrite decide_False. Qed.

(** [data] reads the three bytes of the object, in order. *)
Lemma get_data_wf a b c : get_data [a; b; c] = Some (mk_hts_settings a b c).
Proof. reflexivity. Qed.

(** [u.data = r] overwrites every byte of the object. *)
Lemma set_data_wf u r :
  hts_settings_data_wf u →
  set_data r u
  = Some [wrist_orientation r; pair_button_orientation r; intensity_level r].
Proof.
  intros (a & b & c & ->)%hts_settings_data_wf_inv. reflexivity.
Qed.

Lemma get_set_data u r u' :
  set_data r u = Some u' → get_data u' = Some r.
Proof.
  unfold set_data, get_data. intros Hset.
  destruct (store u _ _) as [u1 |] eqn:H1; [| done]. simpl in Hset.
  destruct (store u1 _ _) as [u2 |] eqn:H2; [| done]. simpl in Hset.
  assert (load u' (offsetof m_intensity_level) = Some (intensity_level r))
    as -> by exact (load_store_eq _ _ _ _ Hset).
  assert (load u' (offsetof m_pair_button_orientation)
          = Some (pair_button_orientation r)) as ->.
  { rewrite (load_store_ne _ _ (offsetof m_pair_button_orientation) _ _ Hset)
      by distinct_members.
    exact (load_store_eq _ _ _ _ H2). }
  assert (load u' (offsetof m_wrist_orientation)
          = Some (wrist_orientation r)) as ->.
  { rewrite (load_store_ne _ _ (offsetof m_wrist_orientation) _ _ Hset)
      by distinct_members.
    rewrite (load_store_ne _ _ (offsetof m_wrist_orientation) _ _ H2)
      by distinct_members.
    exact (load_store_eq _ _ _ _ H1). }
  simpl. by destruct r.
Qed.

Lemma encode_with_wf u r :
  hts_settings_data_wf u →
  encode_with u r
  = Some [wrist_orientation r; pair_button_orientation r; intensity_level r].
Proof.
  intros Hwf. unfold encode_with. rewrite set_data_wf by done. simpl.
  by apply get_bytes_wf.
Qed.

Lemma decode_with_wf u b0 b1 b2 :
  hts_settings_data_wf u →
  decode_with u [b0; b1; b2] = Some (mk_hts_settings b0 b1 b2).
Proof.
  intros Hwf. unfold decode_with. by rewrite set_bytes_wf.
Qed.

Lemma decode_with_length_ne u bs : length bs ≠ 3 → decode_with u bs = None.
Proof.
  intros Hne. unfold decode_with. by rewrite set_bytes_length_ne.
Qed.

Lemma encode_eq r :
  encode r
  = Some [wrist_orientation r; pair_button_orientation r; intensity_level r].
Proof. apply encode_with_wf, hts_settings_data_zero_wf. Qed.

Lemma decode_eq b0 b1 b2 :
  decode [b0; b1; b2] = Some (mk_hts_settings b0 b1 b2).
Proof. apply decode_with_wf, hts_settings_data_zero_wf. Qed.

Lemma decode_length_ne bs : length bs ≠ 3 → decode bs = None.
Proof. apply decode_with_length_ne. Qed.

Lemma length_3_inv bs : length bs = 3 → ∃ b0 b1 b2, bs = [b0; b1; b2].
Proof.
  destruct bs as [| b0 [| b1 [| b2 [| b3 bs]]]]; simpl; try discriminate.
  intros _. by exists b0, b1, b2.
Qed.
End union.

(** * The conversions on concrete values *)

Example sizeof_hts_settings_data_is_3 :
  sizeof_hts_settings = 3 ∧ sizeof_hts_settings_data = 3.
Proof. split; reflexivity. Qed.

Example encode_0_1_2 :
  encode (mk_hts_settings x00 x01 x02) = Some [x00; x01; x02].
Proof. reflexivity. Qed.

Example decode_9_9_9 :
  decode [x09; x09; x09] = Some (mk_hts_settings x09 x09 x09).
Proof. reflexivity. Qed.

Example decode_wrong_length :
  decode [x00; x01] = None ∧ decode [x00; x01; x02; x03] = None.
Proof. split; reflexivity. Qed.

Example decode_checked_1_1_2 :
  decode_checked [x01; x01; x02] = inr (mk_hts_settings x01 x01 x02).
Proof. reflexivity. Qed.

Example hts_settings_valid_cases :
  hts_settings_valid (mk_hts_settings x01 x01 x02) = true
  ∧ hts_settings_valid (mk_hts_settings x02 x00 x00) = false
  ∧ hts_settings_valid (mk_hts_settings x00 x00 x03) = false.
Proof. repeat split; reflexivity. Qed.

(** * Round trips *)

Section round_trip.
Implicit Types (u : hts_settings_data) (r : hts_settings)
               (bs : list uint8_t).

(** Bytes stored through [data] and read through [bytes] decode to the
    record that was stored, whatever the record. *)
Lemma decode_encode r : encode r ≫= decode = Some r.
Proof.
  unfold encode, encode_with.
  destruct (set_data r hts_settings_data_zero) as [u' |] eqn:Hset;
    [| by rewrite set_data_wf in Hset by apply hts_settings_data_zero_wf].
  simpl.
  assert (hts_settings_data_wf u') as Hwf.
  { rewrite set_data_wf in Hset by apply hts_settings_data_zero_wf.
    by injection Hset as <-. }
  rewrite get_bytes_wf by done. simpl.
  unfold decode, decode_with.
  rewrite set_bytes_wf; [| apply hts_settings_data_zero_wf | exact Hwf].
  simpl. by apply get_set_data with hts_settings_data_zero.
Qed.

(** The other way round, on a buffer of the size of the array. *)
Lemma encode_decode bs : length bs = 3 → decode bs ≫= encode = Some bs.
Proof.
  intros (b0 & b1 & b2 & ->)%length_3_inv.
  rewrite decode_eq. simpl. by rewrite encode_eq.
Qed.

(** A function with a left inverse is injective. *)
Lemma encode_inj r1 r2 : encode r1 = encode r2 → r1 = r2.
Proof.
  intros Heq.
  assert (Some r1 = Some r2) as [= ->]; [| done].
  by rewrite <- (decode_encode r1), <- (decode_encode r2), Heq.
Qed.
End round_trip.

(** * The properties of the specification *)

(** C1. Round trip: for every valid record [r] (wrist and pair button
    orientation in {0,1}, intensity level in {0,1,2}), decoding the bytes
    that encode [r] gives back [r], equal in every member. *)
Theorem decode_encode_valid (r : hts_settings) :
  hts_settings_valid r = true →
  encode r ≫= decode = Some r.
Proof. intros _. apply decode_encode. Qed.

Lemma decode_encode_valid_witness :
  hts_settings_valid (mk_hts_settings x01 x00 x02) = true
  ∧ encode (mk_hts_settings x01 x00 x02) ≫= decode
    = Some (mk_hts_settings x01 x00 x02).
Proof.
  split; [reflexivity |].
  apply (decode_encode_valid (mk_hts_settings x01 x00 x02)). reflexivity.
Defined.

(** C2. Fixed size: for every valid record [r], [encode r] is a sequence of
    exactly 3 bytes, one for each of the 3 members. *)
Theorem encode_length (r : hts_settings) :
  hts_settings_valid r = true →
  length <$> encode r = Some 3
  ∧ length hts_settings_members = 3.
Proof. intros _. by rewrite encode_eq. Qed.

Lemma encode_length_witness :
  hts_settings_valid (mk_hts_settings x00 x01 x02) = true
  ∧ length <$> encode (mk_hts_settings x00 x01 x02) = Some 3
  ∧ length hts_settings_members = 3.
Proof.
  split; [reflexivity |].
  apply (encode_length (mk_hts_settings x00 x01 x02)). reflexivity.
Defined.

(** C3. Field order: for every record [r], byte 0 of [encode r] is the wrist
    orientation, byte 1 the pair button orientation and byte 2 the
    intensity level; the record (0, 1, 2) encodes to the bytes 0, 1, 2. *)
Theorem encode_field_order :
  (∀ r : hts_settings,
     encode r
     = Some [wrist_orientation r; pair_button_orientation r; intensity_level r])
  ∧ encode (mk_hts_settings x00 x01 x02) = Some [x00; x01; x02].
Proof. split; [exact encode_eq | apply encode_eq]. Qed.

(** C4. For every buffer of exactly 3 bytes, documented values or not,
    decoding succeeds and maps the bytes to the members as they are: byte 0
    to the wrist orientation, byte 1 to the pair button orientation, byte 2
    to the intensity level.  The bytes 1, 1, 2 give the record (1, 1, 2);
    the bytes 9, 9, 9 give the record (9, 9, 9), which is not a valid
    one. *)
Theorem decode_verbatim :
  (∀ b0 b1 b2 : uint8_t,
     decode [b0; b1; b2] = Some (mk_hts_settings b0 b1 b2))
  ∧ decode [x01; x01; x02] = Some (mk_hts_settings x01 x01 x02)
  ∧ decode [x09; x09; x09] = Some (mk_hts_settings x09 x09 x09)
  ∧ hts_settings_valid (mk_hts_settings x09 x09 x09) = false.
Proof. repeat split; (exact decode_eq || apply decode_eq). Qed.

(** C5. Decoding fails with [LengthMismatch] if and only if the buffer is
    not exactly 3 bytes long: the 2 bytes 0, 1 and the 4 bytes 0, 1, 2, 3
    fail with [LengthMismatch], and every buffer of 3 bytes decodes. *)
Theorem decode_checked_length_mismatch :
  (∀ bs : list uint8_t,
     decode_checked bs = inl LengthMismatch ↔ length bs ≠ 3)
  ∧ decode_checked [x00; x01] = inl LengthMismatch
  ∧ decode_checked [x00; x01; x02; x03] = inl LengthMismatch
  ∧ (∀ b0 b1 b2 : uint8_t,
       decode_checked [b0; b1; b2] = inr (mk_hts_settings b0 b1 b2)).
Proof.
  assert (∀ b0 b1 b2 : uint8_t,
            decode_checked [b0; b1; b2] = inr (mk_hts_settings b0 b1 b2))
    as Hok.
  { intros b0 b1 b2. unfold decode_checked, decode_into.
    rewrite set_bytes_wf by (apply hts_settings_data_zero_wf || done).
    by rewrite get_data_wf. }
  repeat split; try done.
  - intros Hfail Hlen.
    apply length_3_inv in Hlen as (b0 & b1 & b2 & ->).
    by rewrite Hok in Hfail.
  - intros Hlen. unfold decode_checked, decode_into.
    by rewrite set_bytes_length_ne.
Qed.

(** C6. Encoding never fails on a valid record: for every record whose
    members have documented values, [encode] returns 3 bytes and no
    error. *)
Theorem encode_succeeds (r : hts_settings) :
  hts_settings_valid r = true →
  ∃ b0 b1 b2 : uint8_t, encode r = Some [b0; b1; b2].
Proof. intros _. rewrite encode_eq. eauto. Qed.

Lemma encode_succeeds_witness :
  hts_settings_valid (mk_hts_settings x01 x01 x01) = true
  ∧ ∃ b0 b1 b2 : uint8_t,
      encode (mk_hts_settings x01 x01 x01) = Some [b0; b1; b2].
Proof.
  split; [reflexivity |].
  apply (encode_succeeds (mk_hts_settings x01 x01 x01)). reflexivity.
Defined.

(** The copy alone is not atomic: a buffer one byte too long overwrites the
    whole object before the copy fails, and an object too small for the
    buffer keeps the bytes that did fit. *)
Example copy_bytes_partial :
  copy_bytes [x01; x00; x02] 0 [x09; x09; x09; x09] = (false, [x09; x09; x09])
  ∧ copy_bytes [x01] 0 [x09; x09; x09] = (false, [x09]).
Proof. split; reflexivity. Qed.

(** A copy whose stores all succeed is the assignment of the array. *)
Lemma copy_bytes_store_bytes (u u' : list uint8_t) (ofs : nat)
    (bs : list uint8_t) :
  store_bytes u ofs bs = Some u' → copy_bytes u ofs bs = (true, u').
Proof.
  revert u ofs. induction bs as [| b bs IH]; intros u ofs; simpl.
  - by intros [= <-].
  - destruct (store u (ofs * sizeof_uint8_t) b) as [u1 |]; [| done].
    simpl. apply IH.
Qed.

(** On an object of the union type, a buffer of the length of the array is
    always copied whole: the array lies inside the object. *)
Lemma copy_bytes_wf (u : hts_settings_data) (bs : list uint8_t) :
  hts_settings_data_wf u → length bs = bytes_len →
  copy_bytes u 0 bs = (true, bs).
Proof.
  intros Hwf Hlen. apply copy_bytes_store_bytes.
  pose proof (set_bytes_wf u bs Hwf Hlen) as Hset.
  unfold set_bytes in Hset. by rewrite decide_True in Hset.
Qed.

(** On such an object both decodings agree. *)
Lemma decode_in_place_decode_into (u : hts_settings_data) (bs : list uint8_t) :
  hts_settings_data_wf u → decode_in_place u bs = decode_into u bs.
Proof.
  intros Hwf. unfold decode_in_place, decode_into.
  destruct (decide (length bs = bytes_len)) as [Hlen | Hlen].
  - rewrite copy_bytes_wf, set_bytes_wf by done.
    rewrite bytes_len_eq in Hlen.
    apply length_3_inv in Hlen as (b0 & b1 & b2 & ->).
    by rewrite get_data_wf.
  - by rewrite set_bytes_length_ne.
Qed.

(** C7. A decode that fails with [LengthMismatch] is atomic: the receiving
    object is left as it was, no byte of the buffer copied, and so
    the record it holds is still the one it held, not a partly decoded
    one. *)
Theorem decode_in_place_failure_atomic
    (u : hts_settings_data) (bs : list uint8_t) :
  hts_settings_data_wf u →
  fst (decode_in_place u bs) = inl LengthMismatch →
  snd (decode_in_place u bs) = u
  ∧ get_data (snd (decode_in_place u bs)) = get_data u.
Proof.
  intros Hwf. unfold decode_in_place.
  destruct (decide (length bs = bytes_len)) as [Hlen | Hlen]; [| done].
  rewrite copy_bytes_wf by done.
  rewrite bytes_len_eq in Hlen.
  apply length_3_inv in Hlen as (b0 & b1 & b2 & ->).
  rewrite get_data_wf. discriminate.
Qed.

Lemma decode_in_place_failure_atomic_witness :
  (hts_settings_data_wf [x01; x01; x02]
   ∧ fst (decode_in_place [x01; x01; x02] [x00; x01]) = inl LengthMismatch)
  ∧ snd (decode_in_place [x01; x01; x02] [x00; x01]) = [x01; x01; x02]
  ∧ get_data (snd (decode_in_place [x01; x01; x02] [x00; x01]))
    = get_data [x01; x01; x02].
Proof.
  split; [split; reflexivity |].
  apply (decode_in_place_failure_atomic [x01; x01; x02] [x00; x01]);
    reflexivity.
Defined.

(** C8. Encoding and decoding are deterministic and pure: equal inputs give
    equal outputs, whatever the working union object held before, that
    object being the only storage either of them reads or writes. *)
Theorem encode_decode_deterministic
    (u1 u2 : hts_settings_data) (r1 r2 : hts_settings)
    (bs1 bs2 : list uint8_t) :
  hts_settings_data_wf u1 → hts_settings_data_wf u2 →
  r1 = r2 → bs1 = bs2 →
  encode_with u1 r1 = encode_with u2 r2
  ∧ decode_with u1 bs1 = decode_with u2 bs2.
Proof.
  intros Hwf1 Hwf2 <- <-.
  assert (∀ u, hts_settings_data_wf u → decode_with u bs1 = decode bs1)
    as Hdec.
  { intros u Hwf. destruct (decide (length bs1 = 3)) as [Hlen | Hlen].
    - apply length_3_inv in Hlen as (b0 & b1 & b2 & ->).
      by rewrite decode_eq, decode_with_wf.
    - by rewrite decode_length_ne, decode_with_length_ne. }
  by rewrite !encode_with_wf, !Hdec.
Qed.

Lemma encode_decode_deterministic_witness :
  (hts_settings_data_wf [x00; x00; x00]
   ∧ hts_settings_data_wf [xff; x07; x2a]
   ∧ mk_hts_settings x01 x00 x02 = mk_hts_settings x01 x00 x02
   ∧ [x09; x09; x09] = [x09; x09; x09])
  ∧ encode_with [x00; x00; x00] (mk_hts_settings x01 x00 x02)
    = encode_with [xff; x07; x2a] (mk_hts_settings x01 x00 x02)
  ∧ decode_with [x00; x00; x00] [x09; x09; x09]
    = decode_with [xff; x07; x2a] [x09; x09; x09].
Proof.
  split; [repeat split |].
  apply (encode_decode_deterministic
           [x00; x00; x00] [xff; x07; x2a]
           (mk_hts_settings x01 x00 x02) (mk_hts_settings x01 x00 x02)
           [x09; x09; x09] [x09; x09; x09]); reflexivity.
Defined.

(** C9. Inverse round trip: for every buffer [bs] of exactly 3 bytes,
    documented values or not, encoding the record decoded from [bs] gives
    [bs] back. *)
Theorem encode_decode_bytes (bs : list uint8_t) :
  length bs = 3 →
  decode bs ≫= encode = Some bs.
Proof. apply encode_decode. Qed.

Lemma encode_decode_bytes_witness :
  length [x09; xff; x80] = 3
  ∧ decode [x09; xff; x80] ≫= encode = Some [x09; xff; x80].
Proof.
  split; [reflexivity |].
  apply (encode_decode_bytes [x09; xff; x80]). reflexivity.
Defined.

(** C10. Encoding is injective: two records, of any byte values, that encode
    to the same bytes are equal. *)
Theorem encode_injective (r1 r2 : hts_settings) :
  encode r1 = encode r2 → r1 = r2.
Proof. apply encode_inj. Qed.

Lemma encode_injective_witness :
  encode (mk_hts_settings x09 x00 xff) = encode (mk_hts_settings x09 x00 xff)
  ∧ mk_hts_settings x09 x00 xff = mk_hts_settings x09 x00 xff.
Proof.
  split; [reflexivity |].
  apply (encode_injective (mk_hts_settings x09 x00 xff)
                          (mk_hts_settings x09 x00 xff)).
  reflexivity.
Defined.

(** * Further properties of the two types *)

(** The single accesses on a concrete object. *)
Example get_member_cases :
  get_member m_intensity_level [x01; x00; x02] = Some x02
  ∧ (set_member m_wrist_orientation x00 [x01; x00; x02] ≫= get_bytes)
    = Some [x00; x00; x02]
  ∧ (set_byte 1 x01 [x01; x00; x02] ≫= get_data)
    = Some (mk_hts_settings x01 x01 x02)
  ∧ set_byte 3 x01 [x01; x00; x02] = None.
Proof. repeat split; reflexivity. Qed.

Lemma offsetof_lt_length (u : hts_settings_data) (m : member) :
  hts_settings_data_wf u → offsetof m < length u.
Proof.
  intros Hwf. red in Hwf. rewrite Hwf, sizeof_hts_settings_data_eq.
  pose proof (member_in_bounds m) as Hin.
  rewrite sizeof_hts_settings_eq in Hin.
  assert (0 < sizeof_member m) by (destruct m; vm_compute; lia).
  lia.
Qed.

(** X1. The members of the structure tile it: every offset inside the
    structure belongs to exactly one member, so there is neither padding nor
    overlap. *)
Theorem members_tile_struct (i : nat) :
  i < sizeof_hts_settings →
  ∃ m : member,
    offsetof m ≤ i < offsetof m + sizeof_member m
    ∧ ∀ m' : member,
        offsetof m' ≤ i < offsetof m' + sizeof_member m' → m' = m.
Proof.
  rewrite sizeof_hts_settings_eq. intros Hlt.
  destruct i as [| [| [| i]]]; [| | | lia].
  - exists m_wrist_orientation. split; [vm_compute; lia |].
    intros [] Hm; vm_compute in Hm; (done || lia).
  - exists m_pair_button_orientation. split; [vm_compute; lia |].
    intros [] Hm; vm_compute in Hm; (done || lia).
  - exists m_intensity_level. split; [vm_compute; lia |].
    intros [] Hm; vm_compute in Hm; (done || lia).
Qed.

Lemma members_tile_struct_witness :
  1 < sizeof_hts_settings
  ∧ ∃ m : member,
      offsetof m ≤ 1 < offsetof m + sizeof_member m
      ∧ ∀ m' : member,
          offsetof m' ≤ 1 < offsetof m' + sizeof_member m' → m' = m.
Proof.
  split; [vm_compute; lia |].
  apply (members_tile_struct 1). vm_compute; lia.
Defined.

(** X2. Assigning one member through the union changes that member of the
    structure held by the object and leaves the other two as they were. *)
Theorem set_member_get_data
    (u : hts_settings_data) (r : hts_settings) (m : member) (b : uint8_t) :
  hts_settings_data_wf u →
  get_data u = Some r →
  set_member m b u ≫= get_data = Some (with_member r m b).
Proof.
  intros (a0 & a1 & a2 & ->)%hts_settings_data_wf_inv.
  rewrite get_data_wf. intros [= <-].
  destruct m; reflexivity.
Qed.

Lemma set_member_get_data_witness :
  (hts_settings_data_wf [x01; x00; x02]
   ∧ get_data [x01; x00; x02] = Some (mk_hts_settings x01 x00 x02))
  ∧ set_member m_intensity_level x00 [x01; x00; x02] ≫= get_data
    = Some (with_member (mk_hts_settings x01 x00 x02) m_intensity_level x00).
Proof.
  split; [split; reflexivity |].
  apply (set_member_get_data
           [x01; x00; x02] (mk_hts_settings x01 x00 x02)
           m_intensity_level x00); reflexivity.
Defined.

(** X3. The two members of the union alias: after a member of the structure
    is assigned through [data], the array [bytes] is the former
    array with the element at the offset of that member replaced, every
    other element unchanged. *)
Theorem set_member_get_bytes
    (u : hts_settings_data) (m : member) (b : uint8_t) :
  hts_settings_data_wf u →
  set_member m b u ≫= get_bytes = Some (<[offsetof m := b]> u).
Proof.
  intros Hwf. unfold set_member.
  rewrite store_Some by by apply offsetof_lt_length.
  simpl. apply get_bytes_wf.
  unfold hts_settings_data_wf, hts_settings_data in *.
  by rewrite length_insert.
Qed.

Lemma set_member_get_bytes_witness :
  hts_settings_data_wf [x01; x00; x02]
  ∧ set_member m_pair_button_orientation x01 [x01; x00; x02] ≫= get_bytes
    = Some (<[offsetof m_pair_button_orientation := x01]> [x01; x00; x02]).
Proof.
  split; [reflexivity |].
  apply (set_member_get_bytes [x01; x00; x02] m_pair_button_orientation x01).
  reflexivity.
Defined.

(** X4. The aliasing the other way: after element [i] of [bytes] is
    assigned, the member of the structure at offset [i] reads the new byte
    and every other member reads what it read before. *)
Theorem set_byte_get_member
    (u : hts_settings_data) (i : nat) (m : member) (b : uint8_t) :
  hts_settings_data_wf u →
  i < bytes_len →
  set_byte i b u ≫= get_member m
  = if decide (offsetof m = i) then Some b else get_member m u.
Proof.
  intros Hwf Hi. unfold set_byte, get_member, sizeof_uint8_t.
  rewrite decide_True by done. rewrite Nat.mul_1_r.
  assert (i < length u) as Hlt.
  { red in Hwf. rewrite Hwf, sizeof_hts_settings_data_eq.
    by rewrite bytes_len_eq in Hi. }
  destruct (store u i b) as [u' |] eqn:Hst;
    [| by rewrite store_Some in Hst]. simpl.
  case_decide as Hm.
  - subst i. exact (load_store_eq _ _ _ _ Hst).
  - apply (load_store_ne _ _ _ _ _ Hst). congruence.
Qed.

Lemma set_byte_get_member_witness :
  (hts_settings_data_wf [x01; x00; x02] ∧ 2 < bytes_len)
  ∧ set_byte 2 x00 [x01; x00; x02] ≫= get_member m_wrist_orientation
    = if decide (offsetof m_wrist_orientation = 2) then Some x00
      else get_member m_wrist_orientation [x01; x00; x02].
Proof.
  split; [split; [reflexivity | vm_compute; lia] |].
  apply (set_byte_get_member [x01; x00; x02] 2 m_wrist_orientation x00);
    [reflexivity | vm_compute; lia].
Defined.

(** X5. Assignments to two different members commute: the object they leave
    does not depend on their order, and either order fails when the other
    does. *)
Theorem set_member_commute
    (u : hts_settings_data) (m1 m2 : member) (b1 b2 : uint8_t) :
  m1 ≠ m2 →
  set_member m1 b1 u ≫= set_member m2 b2
  = set_member m2 b2 u ≫= set_member m1 b1.
Proof.
  intros Hne.
  assert (offsetof m1 ≠ offsetof m2) as Hofs
    by (intros E%member_offsets_inj; done).
  unfold set_member, store.
  destruct (decide (offsetof m1 < length u)) as [H1 | H1],
           (decide (offsetof m2 < length u)) as [H2 | H2];
    simpl; rewrite ?length_insert.
  - rewrite !decide_True by done. f_equal.
    by apply list_insert_insert_ne.
  - by rewrite decide_False.
  - by rewrite decide_False.
  - done.
Qed.

Lemma set_member_commute_witness :
  m_wrist_orientation ≠ m_intensity_level
  ∧ set_member m_wrist_orientation x00 [x01; x00; x02]
      ≫= set_member m_intensity_level x01
    = set_member m_intensity_level x01 [x01; x00; x02]
        ≫= set_member m_wrist_orientation x00.
Proof.
  split; [discriminate |].
  apply (set_member_commute
           [x01; x00; x02] m_wrist_orientation m_intensity_level x00 x01).
  discriminate.
Defined.

(** X6. The two conversions are inverse to each other as partial maps: a
    buffer decodes to a record exactly when that record encodes to the
    buffer. *)
Theorem decode_Some_iff_encode (bs : list uint8_t) (r : hts_settings) :
  decode bs = Some r ↔ encode r = Some bs.
Proof.
  rewrite encode_eq. split.
  - intros Hdec.
    destruct (decide (length bs = 3)) as [Hlen | Hlen];
      [| by rewrite decode_length_ne in Hdec].
    apply length_3_inv in Hlen as (b0 & b1 & b2 & ->).
    rewrite decode_eq in Hdec. by injection Hdec as <-.
  - intros [= <-]. rewrite decode_eq. by destruct r.
Qed.

(** X7. The buffers that are the wire form of some record are exactly the
    buffers of 3 bytes. *)
Theorem encode_image (bs : list uint8_t) :
  (∃ r : hts_settings, encode r = Some bs) ↔ length bs = 3.
Proof.
  split.
  - intros [r Henc]. rewrite encode_eq in Henc. by injection Henc as <-.
  - intros (b0 & b1 & b2 & ->)%length_3_inv.
    exists (mk_hts_settings b0 b1 b2). apply encode_eq.
Qed.
